(** * xprezzo-http-errors: a shallow embedding of [src/index.js]

    The module exports one function, [createError], carrying a registry of
    per-status error constructors, the abstract [HttpError] marker and the
    [isHttpError] predicate.  This development embeds the module in Rocq and
    proves the properties of its specification.

    Scope of the embedding.
    - JavaScript values are undefined, null, booleans, numbers, strings,
      functions and objects.  Numbers are the integer-valued numbers (with
      [-0] identified with [0]), [NaN] and the two infinities; [to_key] prints
      integers in plain decimal notation, as JavaScript does below 1e21.
    - Strings are sequences of ASCII characters.
    - An object is a prototype tag and a finite map of data properties.  All
      properties are writable data properties of extensible objects: accessor
      properties (getters, setters, the [__proto__] accessor), frozen or sealed
      objects and proxies are outside the embedding, and so is the
      engine-defined [stack] property written by [Error.captureStackTrace].
    - The [statuses] package is not part of the repository: its reason phrase
      table and its list of codes are parameters of the development.
    - [deprecate] (package [depd]) is modelled as appending to a log. *)

From Stdlib Require Import ZArith String Ascii List Lia Bool.
From Stdlib Require Import DecimalString DecimalPos DecimalZ.
From stdpp Require Import base option gmap strings list fin_maps.

#[local] Set Warnings "-register-all".
#[local] Open Scope string_scope.
#[local] Open Scope Z_scope.
#[local] Disable Notation "_ ++ _" : string_scope.

(** ** Numbers *)

Inductive number : Type :=
| Finite (z : Z)
| NaN
| PosInfinity
| NegInfinity.

#[global] Instance number_eq_dec : EqDecision number.
Proof. solve_decision. Defined.

(** [a < b] on numbers: every comparison with [NaN] is false. *)
Definition num_lt (a b : number) : bool :=
  match a, b with
  | NaN, _ | _, NaN => false
  | Finite x, Finite y => x <? y
  | Finite _, PosInfinity => true
  | Finite _, NegInfinity => false
  | PosInfinity, _ => false
  | NegInfinity, NegInfinity => false
  | NegInfinity, _ => true
  end.

(** [a >= b] on numbers. *)
Definition num_ge (a b : number) : bool :=
  match a, b with
  | NaN, _ | _, NaN => false
  | Finite x, Finite y => y <=? x
  | Finite _, PosInfinity => false
  | Finite _, NegInfinity => true
  | PosInfinity, _ => true
  | NegInfinity, NegInfinity => true
  | NegInfinity, _ => false
  end.

(** [a === b] on numbers: [NaN] differs from itself. *)
Definition num_strict_eq (a b : number) : bool :=
  match a, b with
  | Finite x, Finite y => x =? y
  | PosInfinity, PosInfinity => true
  | NegInfinity, NegInfinity => true
  | _, _ => false
  end.

(** [String(n)], which is also the property key [n] denotes. *)
Definition to_key (n : number) : string :=
  match n with
  | Finite z => NilZero.string_of_int (Z.to_int z)
  | NaN => "NaN"
  | PosInfinity => "Infinity"
  | NegInfinity => "-Infinity"
  end.

(** ** Strings *)

Definition digit_of_ascii (c : ascii) : option Z :=
  let n := Z.of_N (N_of_ascii c) in
  if (48 <=? n) && (n <=? 57) then Some (n - 48) else None.

Fixpoint digits_value (acc : Z) (s : string) : option Z :=
  match s with
  | EmptyString => Some acc
  | String c rest =>
      match digit_of_ascii c with
      | Some d => digits_value (10 * acc + d) rest
      | None => None
      end
  end.

(** [Number(s)] for the strings this module passes to it, which are
    [String(n).charAt(0) + '00']: an optional sign followed by decimal digits
    is that integer ([-0] being [0] here), the empty string is [0], and
    anything else is [NaN].  The other literals [Number] accepts (surrounding
    whitespace, fractions, exponents, hexadecimal, [Infinity]) cannot arise
    from the first character of a printed number followed by two zeros. *)
Definition Number_of_string (s : string) : number :=
  match s with
  | EmptyString => Finite 0
  | String c rest =>
      if Ascii.eqb c "-" then
        match rest with
        | EmptyString => NaN
        | _ => match digits_value 0 rest with
               | Some v => Finite (- v)
               | None => NaN
               end
        end
      else if Ascii.eqb c "+" then
        match rest with
        | EmptyString => NaN
        | _ => match digits_value 0 rest with
               | Some v => Finite v
               | None => NaN
               end
        end
      else
        match digits_value 0 s with
        | Some v => Finite v
        | None => NaN
        end
  end.

(** [s.charAt(0)] *)
Definition charAt0 (s : string) : string :=
  match s with
  | EmptyString => ""
  | String c _ => String c ""
  end.

(** [/\s/] on ASCII characters. *)
Definition is_whitespace (c : ascii) : bool :=
  let n := N_of_ascii c in
  ((9 <=? n) && (n <=? 13))%N || (n =? 32)%N.

Definition is_lower (c : ascii) : bool :=
  let n := N_of_ascii c in ((97 <=? n) && (n <=? 122))%N.

Definition is_upper (c : ascii) : bool :=
  let n := N_of_ascii c in ((65 <=? n) && (n <=? 90))%N.

Definition is_digit (c : ascii) : bool :=
  let n := N_of_ascii c in ((48 <=? n) && (n <=? 57))%N.

Definition toUpperCase_ascii (c : ascii) : ascii :=
  if is_lower c then ascii_of_N (N_of_ascii c - 32) else c.

(** [str.split(/\s/)]: every whitespace character separates two tokens. *)
Fixpoint split_whitespace (cur : string) (s : string) : list string :=
  match s with
  | EmptyString => [cur]
  | String c rest =>
      if is_whitespace c
      then cur :: split_whitespace "" rest
      else split_whitespace (cur +:+ String c "") rest
  end.

(** [token.slice(0, 1).toUpperCase() + token.slice(1)] *)
Definition capitalize (token : string) : string :=
  match token with
  | EmptyString => ""
  | String c rest => String (toUpperCase_ascii c) rest
  end.

(** The characters kept by [.replace(/[^ _0-9a-z]/gi, '')]. *)
Definition identifier_char (c : ascii) : bool :=
  Ascii.eqb c " " || Ascii.eqb c "_" || is_digit c || is_lower c || is_upper c.

Fixpoint filter_string (keep : ascii -> bool) (s : string) : string :=
  match s with
  | EmptyString => ""
  | String c rest =>
      if keep c then String c (filter_string keep rest)
      else filter_string keep rest
  end.

Definition join_empty (tokens : list string) : string :=
  fold_right String.append "" tokens.

(** Transform the given string into a JavaScript identifier. *)
Definition toIdentifier (str : string) : string :=
  filter_string identifier_char
    (join_empty (map capitalize (split_whitespace "" str))).

(** Get the code class of a status code. *)
Definition codeClass (status : number) : number :=
  Number_of_string (charAt0 (to_key status) +:+ "00").

(** [name.substr(-5)] *)
Definition substr_last5 (name : string) : string :=
  substring (String.length name - 5)%nat 5%nat name.

(** Get a class name from a name identifier. *)
Definition toClassName (name : string) : string :=
  if String.eqb (substr_last5 name) "Error" then name else name +:+ "Error".

(** ** Constructors, prototypes and values *)

(** The constructor functions this module creates.  [HttpErrorCtor] is the
    abstract base of [createHttpErrorConstructor]; [CodeErrorCtor] is a
    [ClientError] ([client = true]) or [ServerError] ([client = false]) closure
    over its [code], named [className], inheriting from [parent].  A
    constructor is identified by what it closes over; loading the module
    creates one per known code. *)
Inductive ctor : Type :=
| HttpErrorCtor
| CodeErrorCtor (parent : ctor) (className : string) (code : Z) (client : bool).

#[global] Instance ctor_eq_dec : EqDecision ctor.
Proof. solve_decision. Defined.

(** Where the prototype chain of an object leads: [ProtoCtor c] when it passes
    through [c.prototype] ([c] being the most derived constructor of this
    module on the chain), [ProtoError] when it reaches [Error.prototype]
    without doing so, [ProtoObject] otherwise. *)
Inductive prototype : Type :=
| ProtoObject
| ProtoError
| ProtoCtor (c : ctor).

(** An object: its prototype tag and its data properties.  Properties
    inherited from prototypes defined outside this module are held in the map
    as well; for an object used as a properties bag the map holds the
    enumerable properties, which are those [for (key in props)] visits. *)
Record object_of (V : Type) : Type := Obj {
  obj_proto : prototype;
  obj_own : gmap string V
}.
Arguments Obj {V} _ _.
Arguments obj_proto {V} _.
Arguments obj_own {V} _.

Inductive value : Type :=
| VUndefined
| VNull
| VBool (b : bool)
| VNumber (n : number)
| VString (s : string)
| VFunction (id : nat)
| VObject (o : object_of value).

Abbreviation object := (object_of value).

Inductive js_type : Type :=
| TyUndefined | TyObject | TyBoolean | TyNumber | TyString | TyFunction.

(** [typeof v] *)
Definition typeof (v : value) : js_type :=
  match v with
  | VUndefined => TyUndefined
  | VNull => TyObject
  | VBool _ => TyBoolean
  | VNumber _ => TyNumber
  | VString _ => TyString
  | VFunction _ => TyFunction
  | VObject _ => TyObject
  end.

#[global] Instance js_type_eq_dec : EqDecision js_type.
Proof. solve_decision. Defined.

(** Truthiness, as [!v], [a || b] and [cond ? :] use it. *)
Definition truthy (v : value) : bool :=
  match v with
  | VUndefined | VNull => false
  | VBool b => b
  | VNumber (Finite z) => negb (z =? 0)
  | VNumber NaN => false
  | VNumber _ => true
  | VString s => negb (String.eqb s "")
  | VFunction _ | VObject _ => true
  end.

(** [a || b] *)
Definition js_or (a b : value) : value := if truthy a then a else b.

(** [v === n] for a number [n]. *)
Definition strict_eq_number (v : value) (n : number) : bool :=
  match v with
  | VNumber m => num_strict_eq m n
  | _ => false
  end.

(** [c.prototype] is on the chain that starts at [d.prototype]. *)
Fixpoint ctor_inherits (d c : ctor) : bool :=
  if decide (d = c) then true
  else match d with
       | HttpErrorCtor => false
       | CodeErrorCtor parent _ _ _ => ctor_inherits parent c
       end.

(** [o instanceof c] *)
Definition instanceof (o : object) (c : ctor) : bool :=
  match obj_proto o with
  | ProtoCtor d => ctor_inherits d c
  | _ => false
  end.

(** [o instanceof Error]: every constructor of this module inherits from
    [Error]. *)
Definition instanceof_Error (o : object) : bool :=
  match obj_proto o with
  | ProtoObject => false
  | ProtoError | ProtoCtor _ => true
  end.

(** The members of [Error.prototype] this development reads. *)
Definition Error_prototype_get (key : string) : value :=
  if decide (key = "name") then VString "Error"
  else if decide (key = "message") then VString ""
  else VUndefined.

(** Lookup of [key] from [c.prototype] upwards: a code constructor's
    prototype holds [status], [statusCode] and [expose]. *)
Fixpoint ctor_prototype_get (c : ctor) (key : string) : value :=
  match c with
  | HttpErrorCtor => Error_prototype_get key
  | CodeErrorCtor parent _ code client =>
      if decide (key = "status") then VNumber (Finite code)
      else if decide (key = "statusCode") then VNumber (Finite code)
      else if decide (key = "expose") then VBool client
      else ctor_prototype_get parent key
  end.

Definition prototype_get (p : prototype) (key : string) : value :=
  match p with
  | ProtoObject => VUndefined
  | ProtoError => Error_prototype_get key
  | ProtoCtor c => ctor_prototype_get c key
  end.

(** [o[key]] *)
Definition get (o : object) (key : string) : value :=
  match obj_own o !! key with
  | Some v => v
  | None => prototype_get (obj_proto o) key
  end.

(** [o[key] = v] *)
Definition set (o : object) (key : string) (v : value) : object :=
  Obj (obj_proto o) (<[key := v]> (obj_own o)).

(** ** Exceptions *)

Inductive exn : Type :=
| TypeError (msg : string).

Inductive result (A : Type) : Type :=
| Ok (a : A)
| Throw (e : exn).
Arguments Ok {A} _.
Arguments Throw {A} _.

(** ** The [statuses] collaborator *)

(** [statuses.message], an object from status code keys to reason phrases,
    and [statuses.codes], the array of known codes. *)
Record Statuses : Type := {
  statuses_message : gmap string string;
  statuses_codes : list Z
}.

(** [statuses.message[status]] *)
Definition message_of (st : Statuses) (status : number) : value :=
  match statuses_message st !! to_key status with
  | Some phrase => VString phrase
  | None => VUndefined
  end.

(** ** The per-status constructors *)

(** [new Error(msg)] for a string or undefined [msg]. *)
Definition new_Error (msg : value) : object :=
  match msg with
  | VUndefined => Obj ProtoError ∅
  | _ => Obj ProtoError {[ "message" := msg ]}
  end.

(** Calling (or constructing with) one of the module's constructors.  The
    body of [ClientError] and [ServerError] is the same. *)
Definition construct (st : Statuses) (c : ctor) (message : value)
  : result object :=
  match c with
  | HttpErrorCtor => Throw (TypeError "cannot construct abstract class")
  | CodeErrorCtor _ className code _ =>
      let msg := match message with
                 | VUndefined | VNull => message_of st (Finite code)
                 | _ => message
                 end in
      let err := Obj (ProtoCtor c) (obj_own (new_Error msg)) in
      let err := set err "message" msg in
      let err := set err "name" (VString className) in
      Ok err
  end.

(** [createClientErrorConstructor] and [createServerErrorConstructor];
    [inherits] rejects a missing super constructor. *)
Definition createCodeErrorConstructor (client : bool)
    (HttpError : option ctor) (name : string) (code : Z) : result ctor :=
  match HttpError with
  | Some parent => Ok (CodeErrorCtor parent (toClassName name) code client)
  | None => Throw (TypeError "super constructor must be a function")
  end.

Definition createClientErrorConstructor := createCodeErrorConstructor true.
Definition createServerErrorConstructor := createCodeErrorConstructor false.

(** ** The registry

    The constructor-valued properties of [module.exports].  Its two other
    members, [statuses] and [isHttpError], are not constructors of this module
    and are left out: the module reads [module.exports.HttpError] and keys of
    the form [String(n)] only (see [to_key_first_char]). *)

(** Create HTTP error abstract base class. *)
Definition createHttpErrorConstructor : ctor := HttpErrorCtor.

(** [module.exports] before [populateConstructorExports] runs (line 274). *)
Definition initial_exports : gmap string ctor :=
  {[ "HttpError" := createHttpErrorConstructor ]}.

(** One iteration of [forEachCode]. *)
Definition forEachCode (st : Statuses) (exports : gmap string ctor) (code : Z)
  : result (gmap string ctor) :=
  match statuses_message st !! to_key (Finite code) with
  | None => Throw (TypeError "cannot read properties of undefined")
  | Some phrase =>
      let name := toIdentifier phrase in
      let CodeError :=
        if decide (codeClass (Finite code) = Finite 400) then
          Some (createClientErrorConstructor (exports !! "HttpError") name code)
        else if decide (codeClass (Finite code) = Finite 500) then
          Some (createServerErrorConstructor (exports !! "HttpError") name code)
        else None in
      match CodeError with
      | None => Ok exports
      | Some (Throw e) => Throw e
      | Some (Ok CodeError) =>
          Ok (<[name := CodeError]> (<[to_key (Finite code) := CodeError]> exports))
      end
  end.

(** Populate the exports object with constructors for every error class. *)
Fixpoint populateConstructorExports (st : Statuses) (codes : list Z)
    (exports : gmap string ctor) : result (gmap string ctor) :=
  match codes with
  | [] => Ok exports
  | code :: rest =>
      match forEachCode st exports code with
      | Ok exports' => populateConstructorExports st rest exports'
      | Throw e => Throw e
      end
  end.

(** Loading the module (lines 272-288). *)
Definition module_exports (st : Statuses) : result (gmap string ctor) :=
  populateConstructorExports st (statuses_codes st) initial_exports.

(** ** Deprecation signals and the effects of [createError] *)

Inductive deprecation : Type :=
| NonFirstArgumentStatus (arg : number)
| NonErrorStatus.

#[global] Instance deprecation_eq_dec : EqDecision deprecation.
Proof. solve_decision. Defined.

(** The text handed to [deprecate]. *)
Definition deprecation_message (d : deprecation) : string :=
  match d with
  | NonFirstArgumentStatus arg =>
      "non-first-argument status code; replace with createError("
        +:+ to_key arg +:+ ", ...)"
  | NonErrorStatus =>
      "non-error status code; use only 4xx or 5xx status codes"
  end.

(** A computation of [createError]: it reads and extends the deprecation log
    and either returns or throws. *)
Definition Eff (A : Type) : Type :=
  list deprecation -> list deprecation * result A.

Definition eff_ret {A} (a : A) : Eff A := fun log => (log, Ok a).

Definition eff_bind {A B} (m : Eff A) (k : A -> Eff B) : Eff B :=
  fun log =>
    match m log with
    | (log', Ok a) => k a log'
    | (log', Throw e) => (log', Throw e)
    end.

Definition eff_lift {A} (r : result A) : Eff A := fun log => (log, r).

Definition deprecate (d : deprecation) : Eff unit :=
  fun log => (log ++ [d], Ok tt).

Notation "'do' x <- m ; k" := (eff_bind m (fun x => k))
  (at level 10, x name, m at level 100, k at level 200).
Notation "'when' b 'then' m ; k" :=
  (eff_bind (if b then m else eff_ret tt) (fun _ => k))
  (at level 10, b at level 100, m at level 100, k at level 200).

(** ** createError *)

(** The local variables [err], [msg], [status] and [props]. *)
Record locals : Type := Locals {
  l_err : option object;
  l_msg : option string;
  l_status : value;
  l_props : value
}.

Definition initial_locals : locals :=
  {| l_err := None;
     l_msg := None;
     l_status := VNumber (Finite 500);
     l_props := VObject (Obj ProtoObject ∅) |}.

(** The body of the argument loop (lines 68-87) for [arguments[i]]. *)
Definition scan_argument (i : nat) (arg : value) (l : locals) : Eff locals :=
  match arg with
  | VObject o =>
      if instanceof_Error o then
        eff_ret {| l_err := Some o;
                   l_msg := l_msg l;
                   l_status :=
                     js_or (js_or (get o "status") (get o "statusCode"))
                           (l_status l);
                   l_props := l_props l |}
      else
        eff_ret {| l_err := l_err l; l_msg := l_msg l;
                   l_status := l_status l; l_props := arg |}
  | VNull =>
      eff_ret {| l_err := l_err l; l_msg := l_msg l;
                 l_status := l_status l; l_props := arg |}
  | VString s =>
      eff_ret {| l_err := l_err l; l_msg := Some s;
                 l_status := l_status l; l_props := l_props l |}
  | VNumber n =>
      when negb (Nat.eqb i 0) then deprecate (NonFirstArgumentStatus n);
      eff_ret {| l_err := l_err l; l_msg := l_msg l;
                 l_status := arg; l_props := l_props l |}
  | VUndefined | VBool _ | VFunction _ => eff_ret l
  end.

(** The argument loop (lines 67-88), from index [i] on. *)
Fixpoint scan_arguments (i : nat) (args : list value) (l : locals)
  : Eff locals :=
  match args with
  | [] => eff_ret l
  | arg :: rest =>
      do l' <- scan_argument i arg l;
      scan_arguments (S i) rest l'
  end.

(** The test of line 90. *)
Definition non_error_status (status : value) : bool :=
  match status with
  | VNumber n => num_lt n (Finite 400) || num_ge n (Finite 600)
  | _ => false
  end.

(** The test of lines 94-95. *)
Definition status_rejected (st : Statuses) (status : value) : bool :=
  match status with
  | VNumber n =>
      negb (truthy (message_of st n))
        && (num_lt n (Finite 400) || num_ge n (Finite 600))
  | _ => true
  end.

(** The status after lines 94-97. *)
Definition resolve_status (st : Statuses) (status : value) : number :=
  match status with
  | VNumber n => if status_rejected st status then Finite 500 else n
  | _ => Finite 500
  end.

(** [createError[status] || createError[codeClass(status)]] (line 100);
    every constructor is truthy. *)
Definition select_constructor (exports : gmap string ctor) (status : number)
  : option ctor :=
  match exports !! to_key status with
  | Some c => Some c
  | None => exports !! to_key (codeClass status)
  end.

Definition msg_value (msg : option string) : value :=
  match msg with
  | Some s => VString s
  | None => VUndefined
  end.

(** Lines 102-108: the adopted error, or a fresh one. *)
Definition instantiate (st : Statuses) (HttpError : option ctor)
    (l : locals) (status : number) : result object :=
  match l_err l with
  | Some err => Ok err
  | None =>
      match HttpError with
      | Some c => construct st c (msg_value (l_msg l))
      | None => Ok (new_Error (js_or (msg_value (l_msg l)) (message_of st status)))
      end
  end.

(** The test of line 110. *)
Definition needs_stamp (HttpError : option ctor) (status : number)
    (err : object) : bool :=
  match HttpError with
  | None => true
  | Some c =>
      negb (instanceof err c) || negb (strict_eq_number (get err "status") status)
  end.

(** Lines 110-114. *)
Definition stamp (HttpError : option ctor) (status : number) (err : object)
  : object :=
  if needs_stamp HttpError status err then
    let err := set err "expose" (VBool (num_lt status (Finite 500))) in
    let err := set err "statusCode" (VNumber status) in
    set err "status" (VNumber status)
  else err.

(** The enumerable properties [for (key in props)] visits; none for [null]. *)
Definition for_in (props : value) : gmap string value :=
  match props with
  | VObject o => obj_own o
  | _ => ∅
  end.

(** The body of the copy loop (lines 117-119). *)
Definition copy_property (key : string) (v : value) (err : object) : object :=
  if negb (String.eqb key "status") && negb (String.eqb key "statusCode")
  then set err key v
  else err.

(** Lines 116-120. *)
Definition assign_props (props : value) (err : object) : object :=
  map_fold copy_property err (for_in props).

(** Create a new HTTP Error. *)
Definition createError (st : Statuses) (exports : gmap string ctor)
    (args : list value) : Eff object :=
  do l <- scan_arguments 0 args initial_locals;
  when non_error_status (l_status l) then deprecate NonErrorStatus;
  let status := resolve_status st (l_status l) in
  let HttpError := select_constructor exports status in
  do err <- eff_lift (instantiate st HttpError l status);
  let err := stamp HttpError status err in
  eff_ret (assign_props (l_props l) err).

(** ** isHttpError *)

(** [isHttpError], closed over the abstract base (lines 275-286). *)
Definition isHttpError (val : value) : bool :=
  match val with
  | VObject o =>
      if instanceof o HttpErrorCtor then true
      else
        instanceof_Error o
        && bool_decide (typeof (get o "expose") = TyBoolean)
        && match get o "statusCode" with
           | VNumber n => strict_eq_number (get o "status") n
           | _ => false
           end
  | _ => false
  end.

(** ** Vocabulary of the specification

    The definitions below are not part of the module: they name what the
    specification talks about, so that the theorems can relate it to the
    code above. *)

(** The local variables after one argument, without the signal. *)
Definition update_locals (l : locals) (arg : value) : locals :=
  match arg with
  | VObject o =>
      if instanceof_Error o then
        {| l_err := Some o; l_msg := l_msg l;
           l_status := js_or (js_or (get o "status") (get o "statusCode"))
                             (l_status l);
           l_props := l_props l |}
      else {| l_err := l_err l; l_msg := l_msg l;
              l_status := l_status l; l_props := arg |}
  | VNull => {| l_err := l_err l; l_msg := l_msg l;
                l_status := l_status l; l_props := arg |}
  | VString s => {| l_err := l_err l; l_msg := Some s;
                    l_status := l_status l; l_props := l_props l |}
  | VNumber n => {| l_err := l_err l; l_msg := l_msg l;
                    l_status := arg; l_props := l_props l |}
  | VUndefined | VBool _ | VFunction _ => l
  end.

(** The local variables after the argument loop. *)
Definition scan_locals (args : list value) : locals :=
  fold_left update_locals args initial_locals.

(** The signals of the argument loop: one per number at index [i > 0]. *)
Fixpoint scan_signals (i : nat) (args : list value) : list deprecation :=
  match args with
  | [] => []
  | VNumber n :: rest =>
      (if Nat.eqb i 0 then [] else [NonFirstArgumentStatus n])
        ++ scan_signals (S i) rest
  | _ :: rest => scan_signals (S i) rest
  end.

(** The signals of a whole call: those of the loop, then that of line 91. *)
Definition createError_signals (args : list value) : list deprecation :=
  scan_signals 0 args
  ++ (if non_error_status (l_status (scan_locals args))
      then [NonErrorStatus] else []).



Definition is_error_argument (arg : value) : bool :=
  match arg with VObject o => instanceof_Error o | _ => false end.




(** A number [n] lies outside [[lo, hi)], in the sense of the comparisons
    [n < lo || n >= hi]: [NaN] satisfies neither. *)
Definition outside (lo hi : Z) (n : number) : Prop :=
  num_lt n (Finite lo) = true \/ num_ge n (Finite hi) = true.


(** [n] is one of the known status codes. *)
Definition known_code (st : Statuses) (n : number) : Prop :=
  exists c, n = Finite c /\ In c (statuses_codes st).


(** The condition under which the specification (step 3) announces the
    non-error status signal: numeric, not in [[400, 599)], not a known code. *)
Definition announced_signal_condition (st : Statuses) (status : value) : Prop :=
  exists n, status = VNumber n /\
    ~ (exists c, n = Finite c /\ 400 <= c < 599) /\
    ~ known_code st n.

(** A code constructor is a client constructor exactly for class 400 and a
    server constructor exactly for class 500. *)
Definition well_classed (c : ctor) : Prop :=
  match c with
  | HttpErrorCtor => True
  | CodeErrorCtor _ _ code client =>
      codeClass (Finite code) = Finite (if client then 400 else 500)
  end.

(** What loading the module guarantees of the registry. *)
Definition registry_invariant (exports : gmap string ctor) : Prop :=
  (forall key c, exports !! key = Some c -> well_classed c) /\
  (forall key, exports !! key = Some HttpErrorCtor -> key = "HttpError").

(** The keys the copy loop copies. *)
Definition copied_key (key : string) : bool :=
  negb (String.eqb key "status") && negb (String.eqb key "statusCode").




(** The code [c], of reason phrase [phrase], is registered in [exports]
    under its number and under its identifier, with one constructor. *)
Definition registered (c : Z) (phrase : string) (exports : gmap string ctor)
  : Prop :=
  exists parent,
    let C := CodeErrorCtor parent (toClassName (toIdentifier phrase)) c
                           (c <? 500) in
    exports !! to_key (Finite c) = Some C
    /\ exports !! toIdentifier phrase = Some C.

(** ** A sample Status Table

    An excerpt of the table of the [statuses] package, used to run the
    definitions on concrete inputs. *)

Definition sample_statuses : Statuses :=
  {| statuses_message :=
       list_to_map
         [ ("100", "Continue"); ("200", "OK"); ("301", "Moved Permanently");
           ("400", "Bad Request"); ("401", "Unauthorized");
           ("404", "Not Found"); ("418", "I'm a Teapot");
           ("422", "Unprocessable Entity");
           ("500", "Internal Server Error"); ("502", "Bad Gateway");
           ("503", "Service Unavailable") ];
     statuses_codes := [100; 200; 301; 400; 401; 404; 418; 422; 500; 502; 503]
  |}.

Definition sample_exports : gmap string ctor :=
  match module_exports sample_statuses with
  | Ok exports => exports
  | Throw _ => ∅
  end.

(** [new Error('boom')] *)
Definition sample_error : object :=
  Obj ProtoError {[ "message" := VString "boom" ]}.

(** [createError.NotFound], as loaded from the sample table. *)
Definition sample_NotFound : ctor :=
  CodeErrorCtor HttpErrorCtor "NotFoundError" 404 true.

(** [Object.assign(new Error('boom'), {status: 404, statusCode: 7, expose: false})] *)
Definition sample_adopted : object :=
  Obj ProtoError
    {[ "message" := VString "boom"; "status" := VNumber (Finite 404);
       "statusCode" := VNumber (Finite 7); "expose" := VBool false ]}.




(** ** Vocabulary of the further properties *)

(** Every character of [s] satisfies [P]. *)
Fixpoint string_forallb (P : ascii -> bool) (s : string) : bool :=
  match s with
  | EmptyString => true
  | String c rest => P c && string_forallb P rest
  end.

(** A letter, a digit or an underscore. *)
Definition word_char (c : ascii) : bool :=
  is_digit c || is_lower c || is_upper c || Ascii.eqb c "_".

(** [arg instanceof Error], as an option. *)
Definition error_argument (arg : value) : option object :=
  match arg with
  | VObject o => if instanceof_Error o then Some o else None
  | _ => None
  end.

(** * Properties *)

(** ** Property keys *)

Lemma to_int_parses (z : Z) :
  NilZero.int_of_string (to_key (Finite z)) = Some (Z.to_int z).
Proof.
  unfold to_key. apply NilZero.isi.
  - destruct z as [|p|p]; simpl; try discriminate.
    intros [= H]. by apply DecimalPos.Unsigned.to_uint_nonnil in H.
  - destruct z as [|p|p]; simpl; try discriminate.
    intros [= H]. by apply DecimalPos.Unsigned.to_uint_nonnil in H.
Qed.

Lemma to_key_finite_inj (a b : Z) :
  to_key (Finite a) = to_key (Finite b) -> a = b.
Proof.
  intros H.
  assert (Hp : Some (Z.to_int a) = Some (Z.to_int b)).
  { rewrite <- !to_int_parses. by rewrite H. }
  injection Hp as Hp.
  rewrite <- (DecimalZ.of_to a), <- (DecimalZ.of_to b). by rewrite Hp.
Qed.

(** A key [String(n)] is never the name of a member of the module: it parses
    as a decimal integer, or is one of the three names of the non-finite
    numbers. *)
Lemma to_key_shape (n : number) :
  is_Some (NilZero.int_of_string (to_key n))
  \/ to_key n = "NaN" \/ to_key n = "Infinity" \/ to_key n = "-Infinity".
Proof.
  destruct n as [z| | |]; auto.
  left. rewrite to_int_parses. by eexists.
Qed.

Lemma to_key_not_parsed (n : number) (name : string) :
  NilZero.int_of_string name = None ->
  name <> "NaN" -> name <> "Infinity" -> name <> "-Infinity" ->
  to_key n <> name.
Proof.
  intros Hname H1 H2 H3 Heq.
  destruct (to_key_shape n) as [[d Hd]|[H|[H|H]]]; congruence.
Qed.

Lemma to_key_first_char (n : number) : to_key n <> "HttpError".
Proof. by apply to_key_not_parsed. Qed.

(** ** Code classes *)

Lemma forallb_range (P : Z -> bool) (lo : Z) (len : nat) :
  forallb P (map (fun k => lo + Z.of_nat k) (seq 0 len)) = true ->
  forall c, lo <= c < lo + Z.of_nat len -> P c = true.
Proof.
  intros H c Hc. rewrite forallb_forall in H. apply H.
  apply in_map_iff. exists (Z.to_nat (c - lo)). split; [lia|].
  apply in_seq. lia.
Qed.

Lemma codeClass_4xx (c : Z) :
  400 <= c < 500 -> codeClass (Finite c) = Finite 400.
Proof.
  intros Hc.
  pose (P := fun c => bool_decide (codeClass (Finite c) = Finite 400)).
  assert (H : P c = true)
    by (apply (forallb_range P 400 100); [by vm_compute | lia]).
  by apply bool_decide_eq_true_1 in H.
Qed.

Lemma codeClass_5xx (c : Z) :
  500 <= c < 600 -> codeClass (Finite c) = Finite 500.
Proof.
  intros Hc.
  pose (P := fun c => bool_decide (codeClass (Finite c) = Finite 500)).
  assert (H : P c = true)
    by (apply (forallb_range P 500 100); [by vm_compute | lia]).
  by apply bool_decide_eq_true_1 in H.
Qed.

(** ** Running the effects *)

Lemma scan_argument_run (i : nat) (arg : value) (l : locals)
    (log : list deprecation) :
  scan_argument i arg l log
  = (log ++ scan_signals i [arg], Ok (update_locals l arg)).
Proof.
  destruct arg as [| | |n| | |o]; simpl;
    try (by rewrite ?app_nil_r).
  - unfold eff_bind, deprecate, eff_ret.
    destruct (Nat.eqb i 0); simpl; by rewrite ?app_nil_r.
  - destruct (instanceof_Error o); simpl; by rewrite app_nil_r.
Qed.

Lemma scan_signals_cons (i : nat) (arg : value) (rest : list value) :
  scan_signals i (arg :: rest)
  = scan_signals i [arg] ++ scan_signals (S i) rest.
Proof. destruct arg; simpl; by rewrite ?app_nil_r. Qed.

Lemma scan_arguments_run (args : list value) :
  forall i l log,
    scan_arguments i args l log
    = (log ++ scan_signals i args, Ok (fold_left update_locals args l)).
Proof.
  induction args as [|arg rest IH]; intros i l log.
  - simpl. unfold eff_ret. by rewrite app_nil_r.
  - cbn [scan_arguments fold_left]. unfold eff_bind.
    rewrite scan_argument_run, IH, (scan_signals_cons i arg rest).
    by rewrite app_assoc.
Qed.

Lemma createError_run (st : Statuses) (exports : gmap string ctor)
    (args : list value) (log : list deprecation) :
  let l := scan_locals args in
  let status := resolve_status st (l_status l) in
  let HttpError := select_constructor exports status in
  createError st exports args log
  = (log ++ createError_signals args,
     match instantiate st HttpError l status with
     | Ok e0 => Ok (assign_props (l_props l) (stamp HttpError status e0))
     | Throw e => Throw e
     end).
Proof.
  intros l status HttpError. unfold createError, eff_bind.
  rewrite scan_arguments_run. fold (scan_locals args). fold l.
  unfold createError_signals. fold l.
  destruct (non_error_status (l_status l)); simpl;
    unfold eff_lift, eff_ret; fold status; fold HttpError;
    destruct (instantiate st HttpError l status);
    by rewrite ?app_assoc, ?app_nil_r.
Qed.

(** ** The registry *)

Lemma initial_exports_invariant : registry_invariant initial_exports.
Proof.
  unfold initial_exports. split; intros key.
  - intros c H. apply lookup_singleton_Some in H as [_ <-]. exact I.
  - intros H. by apply lookup_singleton_Some in H as [<- _].
Qed.

Lemma insert_code_constructor_invariant (exports : gmap string ctor)
    (k1 k2 : string) (c : ctor) :
  registry_invariant exports -> well_classed c -> c <> HttpErrorCtor ->
  registry_invariant (<[k1 := c]> (<[k2 := c]> exports)).
Proof.
  intros [Hwc Hbase] Hc Hne. split.
  - intros key c' H.
    apply lookup_insert_Some in H as [[_ <-]|[_ H]]; [done|].
    apply lookup_insert_Some in H as [[_ <-]|[_ H]]; [done|].
    by eapply Hwc.
  - intros key H.
    apply lookup_insert_Some in H as [[_ ->]|[_ H]]; [done|].
    apply lookup_insert_Some in H as [[_ ->]|[_ H]]; [done|].
    by apply Hbase.
Qed.

Lemma forEachCode_invariant (st : Statuses) (exports exports' : gmap string ctor)
    (code : Z) :
  registry_invariant exports ->
  forEachCode st exports code = Ok exports' ->
  registry_invariant exports'.
Proof.
  intros Hinv. unfold forEachCode.
  destruct (statuses_message st !! to_key (Finite code)) as [phrase|];
    [|discriminate].
  unfold createClientErrorConstructor, createServerErrorConstructor,
    createCodeErrorConstructor.
  destruct (decide (codeClass (Finite code) = Finite 400)) as [H4|_].
  - destruct (exports !! "HttpError") as [parent|]; [|discriminate].
    intros [= <-]. by apply insert_code_constructor_invariant.
  - destruct (decide (codeClass (Finite code) = Finite 500)) as [H5|_].
    + destruct (exports !! "HttpError") as [parent|]; [|discriminate].
      intros [= <-]. by apply insert_code_constructor_invariant.
    + by intros [= <-].
Qed.

Lemma populateConstructorExports_invariant (st : Statuses) (codes : list Z) :
  forall exports exports',
    registry_invariant exports ->
    populateConstructorExports st codes exports = Ok exports' ->
    registry_invariant exports'.
Proof.
  induction codes as [|code rest IH]; intros exports exports' Hinv; simpl.
  - by intros [= <-].
  - destruct (forEachCode st exports code) as [e1|] eqn:Hstep; [|discriminate].
    apply IH. by eapply forEachCode_invariant.
Qed.

Lemma module_exports_invariant (st : Statuses) (exports : gmap string ctor) :
  module_exports st = Ok exports -> registry_invariant exports.
Proof.
  apply populateConstructorExports_invariant, initial_exports_invariant.
Qed.

(** A lookup by status never yields the abstract base. *)
Lemma select_constructor_code (exports : gmap string ctor) (status : number)
    (c : ctor) :
  registry_invariant exports ->
  select_constructor exports status = Some c ->
  exists parent className code client,
    c = CodeErrorCtor parent className code client /\ well_classed c.
Proof.
  intros [Hwc Hbase] H. unfold select_constructor in H.
  assert (Hkey : exists n, exports !! to_key n = Some c).
  { destruct (exports !! to_key status) eqn:E.
    - injection H as ->. by exists status.
    - by exists (codeClass status). }
  destruct Hkey as [n Hn].
  destruct c as [|parent className code client].
  - apply Hbase in Hn. by apply to_key_first_char in Hn.
  - exists parent, className, code, client. split; [done|]. by eapply Hwc.
Qed.

(** ** Objects *)

Lemma get_set_eq (o : object) (key : string) (v : value) :
  get (set o key v) key = v.
Proof. unfold get, set. simpl. by rewrite lookup_insert_eq. Qed.

Lemma get_set_ne (o : object) (k1 k2 : string) (v : value) :
  k1 <> k2 -> get (set o k1 v) k2 = get o k2.
Proof. intros H. unfold get, set. simpl. by rewrite lookup_insert_ne. Qed.

Lemma num_strict_eq_true (m n : number) :
  num_strict_eq m n = true -> m = n.
Proof.
  destruct m, n; simpl; try discriminate; try done.
  intros H. apply Z.eqb_eq in H. by subst.
Qed.


Lemma strict_eq_number_true (v : value) (n : number) :
  strict_eq_number v n = true -> v = VNumber n.
Proof.
  destruct v; simpl; try discriminate.
  intros H. by apply num_strict_eq_true in H as ->.
Qed.

(** ** The stamp (lines 110-114) *)

Lemma stamp_stamped (HttpError : option ctor) (status : number) (err : object) :
  needs_stamp HttpError status err = true ->
  get (stamp HttpError status err) "expose" = VBool (num_lt status (Finite 500))
  /\ get (stamp HttpError status err) "status" = VNumber status
  /\ get (stamp HttpError status err) "statusCode" = VNumber status
  /\ obj_proto (stamp HttpError status err) = obj_proto err.
Proof.
  intros H. unfold stamp. rewrite H. repeat split.
  - rewrite !get_set_ne by done. apply get_set_eq.
  - apply get_set_eq.
  - rewrite get_set_ne by done. apply get_set_eq.
Qed.

Lemma stamp_kept (HttpError : option ctor) (status : number) (err : object) :
  needs_stamp HttpError status err = false ->
  stamp HttpError status err = err
  /\ exists c, HttpError = Some c /\ instanceof err c = true
               /\ get err "status" = VNumber status.
Proof.
  intros H. unfold stamp. rewrite H. split; [done|].
  unfold needs_stamp in H. destruct HttpError as [c|]; [|discriminate].
  apply orb_false_elim in H as [H1 H2].
  apply negb_false_iff in H1, H2.
  exists c. repeat split; [done|]. by apply strict_eq_number_true.
Qed.

Lemma stamp_status (HttpError : option ctor) (status : number) (err : object) :
  get (stamp HttpError status err) "status" = VNumber status.
Proof.
  destruct (needs_stamp HttpError status err) eqn:H.
  - by apply stamp_stamped in H as (_ & ? & _).
  - apply stamp_kept in H as [-> (c & _ & _ & ?)]. done.
Qed.


(** ** The copy loop (lines 116-120) *)


Lemma copied_key_false (key : string) :
  copied_key key = false <-> key = "status" \/ key = "statusCode".
Proof.
  unfold copied_key. rewrite andb_false_iff, !negb_false_iff.
  by rewrite !String.eqb_eq.
Qed.

Lemma map_fold_copy_property (err : object) (bag : gmap string value) :
  obj_proto (map_fold copy_property err bag) = obj_proto err
  /\ forall key,
       obj_own (map_fold copy_property err bag) !! key
       = if copied_key key
         then match bag !! key with
              | Some v => Some v
              | None => obj_own err !! key
              end
         else obj_own err !! key.
Proof.
  apply (map_fold_weak_ind
           (fun r m => obj_proto r = obj_proto err
                       /\ forall key,
                            obj_own r !! key
                            = if copied_key key
                              then match m !! key with
                                   | Some v => Some v
                                   | None => obj_own err !! key
                                   end
                              else obj_own err !! key)).
  - split; [done|]. intros key. rewrite lookup_empty. by destruct (copied_key key).
  - intros i x m r Hi [Hp Hr]. unfold copy_property. fold (copied_key i).
    destruct (copied_key i) eqn:Hc.
    + split; [done|]. intros key. simpl.
      destruct (decide (i = key)) as [->|Hne].
      * by rewrite Hc, !lookup_insert_eq.
      * rewrite !lookup_insert_ne by done. apply Hr.
    + split; [done|]. intros key. rewrite Hr.
      destruct (decide (i = key)) as [->|Hne].
      * by rewrite Hc.
      * by rewrite lookup_insert_ne.
Qed.

Lemma assign_props_proto (props : value) (err : object) :
  obj_proto (assign_props props err) = obj_proto err.
Proof. apply map_fold_copy_property. Qed.

Lemma assign_props_get (props : value) (err : object) (key : string) :
  get (assign_props props err) key
  = if copied_key key
    then match for_in props !! key with
         | Some v => v
         | None => get err key
         end
    else get err key.
Proof.
  unfold get. rewrite assign_props_proto. unfold assign_props.
  destruct (map_fold_copy_property err (for_in props)) as [_ H].
  rewrite H. destruct (copied_key key); [|done].
  by destruct (for_in props !! key).
Qed.

Lemma assign_props_status (props : value) (err : object) :
  get (assign_props props err) "status" = get err "status"
  /\ get (assign_props props err) "statusCode" = get err "statusCode".
Proof. by rewrite !assign_props_get. Qed.


(** ** Construction *)

Lemma construct_code (st : Statuses) (parent : ctor) (className : string)
    (code : Z) (client : bool) (message : value) :
  let c := CodeErrorCtor parent className code client in
  exists err,
    construct st c message = Ok err
    /\ obj_proto err = ProtoCtor c
    /\ get err "status" = VNumber (Finite code)
    /\ get err "statusCode" = VNumber (Finite code)
    /\ get err "expose" = VBool client
    /\ get err "name" = VString className
    /\ get err "message"
       = match message with
         | VUndefined | VNull => message_of st (Finite code)
         | _ => message
         end.
Proof.
  intros c. eexists. split; [reflexivity|].
  repeat split; unfold get, set; simpl;
    rewrite ?lookup_insert_eq; try done;
    rewrite !lookup_insert_ne by done;
    by destruct message; simpl;
      try destruct (message_of st (Finite code)); simpl;
      rewrite ?lookup_empty, ?lookup_singleton_ne by done.
Qed.

Lemma ctor_inherits_refl (c : ctor) : ctor_inherits c c = true.
Proof. destruct c; simpl; [done|]. by rewrite decide_True. Qed.

Lemma ctor_inherits_base (c : ctor) : ctor_inherits c HttpErrorCtor = true.
Proof.
  induction c as [|parent IH className code client]; [done|].
  simpl. exact IH.
Qed.

Lemma instanceof_base (o : object) (c : ctor) :
  obj_proto o = ProtoCtor c -> instanceof o HttpErrorCtor = true.
Proof. intros H. unfold instanceof. rewrite H. apply ctor_inherits_base. Qed.

Lemma instanceof_is_error (o : object) (c : ctor) :
  instanceof o c = true -> instanceof_Error o = true.
Proof. unfold instanceof, instanceof_Error. by destruct (obj_proto o). Qed.


(** The adopted error is an [Error]. *)
Lemma fold_update_locals_err (args : list value) :
  forall l,
    (forall e, l_err l = Some e -> instanceof_Error e = true) ->
    forall e, l_err (fold_left update_locals args l) = Some e ->
              instanceof_Error e = true.
Proof.
  induction args as [|arg rest IH]; intros l Hl; [exact Hl|].
  simpl. apply IH. intros e.
  destruct arg as [| | | | | |o]; simpl; try apply Hl.
  destruct (instanceof_Error o) eqn:Ho; simpl; [|apply Hl].
  by intros [= <-].
Qed.

Lemma scan_locals_err (args : list value) (e : object) :
  l_err (scan_locals args) = Some e -> instanceof_Error e = true.
Proof. apply fold_update_locals_err. simpl. discriminate. Qed.

(** Lines 102-108 never throw: the selected constructor is never the
    abstract base. *)
Lemma instantiate_returns (st : Statuses) (exports : gmap string ctor)
    (args : list value) (status : number) :
  registry_invariant exports ->
  exists e0,
    instantiate st (select_constructor exports status) (scan_locals args) status
    = Ok e0
    /\ instanceof_Error e0 = true.
Proof.
  intros Hinv. unfold instantiate.
  destruct (l_err (scan_locals args)) as [err|] eqn:Herr.
  - exists err. split; [done|]. by eapply scan_locals_err.
  - destruct (select_constructor exports status) as [c|] eqn:Hsel.
    + destruct (select_constructor_code _ _ _ Hinv Hsel)
        as (parent & className & code & client & -> & _).
      destruct (construct_code st parent className code client
                  (msg_value (l_msg (scan_locals args))))
        as (err & Hc & Hp & _).
      exists err. split; [done|]. unfold instanceof_Error. by rewrite Hp.
    + eexists. split; [reflexivity|].
      unfold new_Error. by destruct (js_or _ _).
Qed.

(** Every call returns, and the returned error carries the resolved status. *)
Lemma createError_returns (st : Statuses) (exports : gmap string ctor)
    (args : list value) (log : list deprecation) :
  registry_invariant exports ->
  let l := scan_locals args in
  let status := resolve_status st (l_status l) in
  let HttpError := select_constructor exports status in
  exists e0,
    instantiate st HttpError l status = Ok e0
    /\ instanceof_Error e0 = true
    /\ createError st exports args log
       = (log ++ createError_signals args,
          Ok (assign_props (l_props l) (stamp HttpError status e0)))
    /\ get (assign_props (l_props l) (stamp HttpError status e0)) "status"
       = VNumber status.
Proof.
  intros Hinv l status HttpError. subst l status HttpError.
  destruct (instantiate_returns st exports args
              (resolve_status st (l_status (scan_locals args))) Hinv)
    as (e0 & He0 & Herr).
  exists e0. repeat split; [done|done| |].
  - rewrite createError_run. cbv zeta. by rewrite He0.
  - destruct (assign_props_status (l_props (scan_locals args))
                (stamp (select_constructor exports
                          (resolve_status st (l_status (scan_locals args))))
                       (resolve_status st (l_status (scan_locals args))) e0))
      as [-> _].
    apply stamp_status.
Qed.

(** ** createError on a status code *)

Lemma resolve_status_in_range (st : Statuses) (c : Z) :
  400 <= c < 600 -> resolve_status st (VNumber (Finite c)) = Finite c.
Proof.
  intros Hc. unfold resolve_status, status_rejected. simpl.
  replace (c <? 400) with false by (symmetry; apply Z.ltb_ge; lia).
  replace (600 <=? c) with false by (symmetry; apply Z.leb_gt; lia).
  by rewrite andb_false_r.
Qed.

Lemma well_classed_expose (parent : ctor) (className : string) (c : Z)
    (client : bool) :
  400 <= c < 600 ->
  well_classed (CodeErrorCtor parent className c client) ->
  client = (c <? 500).
Proof.
  intros Hc Hwc. simpl in Hwc.
  destruct (Z.ltb_spec c 500) as [Hlt|Hge].
  - rewrite codeClass_4xx in Hwc by lia. by destruct client.
  - rewrite codeClass_5xx in Hwc by lia. by destruct client.
Qed.

(** [createError(c)] for a single status code [c] of the 4xx or 5xx range. *)
Lemma createError_status_code (st : Statuses) (exports : gmap string ctor)
    (c : Z) (log : list deprecation) :
  registry_invariant exports ->
  400 <= c < 600 ->
  exists err,
    createError st exports [VNumber (Finite c)] log = (log, Ok err)
    /\ get err "status" = VNumber (Finite c)
    /\ get err "statusCode" = VNumber (Finite c)
    /\ get err "expose" = VBool (c <? 500).
Proof.
  intros Hinv Hc.
  rewrite createError_run. cbv zeta.
  assert (Hsig : createError_signals [VNumber (Finite c)] = []).
  { unfold createError_signals. simpl.
    replace (c <? 400) with false by (symmetry; apply Z.ltb_ge; lia).
    by replace (600 <=? c) with false by (symmetry; apply Z.leb_gt; lia). }
  rewrite Hsig, app_nil_r.
  change (scan_locals [VNumber (Finite c)])
    with {| l_err := None; l_msg := None; l_status := VNumber (Finite c);
            l_props := VObject (Obj ProtoObject ∅) |}.
  cbn [l_status l_props l_err l_msg].
  rewrite resolve_status_in_range by done.
  unfold instantiate. cbn [l_err l_msg msg_value].
  assert (Hcopy : forall e key,
            get (assign_props (VObject (Obj ProtoObject ∅)) e) key = get e key).
  { intros e key. rewrite assign_props_get. simpl. rewrite lookup_empty.
    by destruct (copied_key key). }
  destruct (select_constructor exports (Finite c)) as [C|] eqn:Hsel.
  - destruct (select_constructor_code _ _ _ Hinv Hsel)
      as (parent & className & code & client & -> & Hwc).
    destruct (construct_code st parent className code client VUndefined)
      as (e0 & -> & Hp & Hs & Hsc & Hex & _).
    eexists. split; [reflexivity|]. rewrite !Hcopy.
    destruct (needs_stamp (Some (CodeErrorCtor parent className code client))
                (Finite c) e0) eqn:Hn.
    + apply stamp_stamped in Hn as (He & Hst & Hstc & _).
      rewrite He, Hst, Hstc. simpl. done.
    + apply stamp_kept in Hn as [-> (C' & _ & _ & Hst)].
      rewrite Hs in Hst. injection Hst as ->.
      rewrite Hs, Hsc, Hex. repeat split.
      f_equal. by eapply well_classed_expose.
  - eexists. split; [reflexivity|]. rewrite !Hcopy.
    destruct (stamp_stamped None (Finite c)
                (new_Error (js_or VUndefined (message_of st (Finite c)))))
      as (He & Hst & Hstc & _); [done|].
    by rewrite He, Hst, Hstc.
Qed.

Lemma sample_loaded : module_exports sample_statuses = Ok sample_exports.
Proof. by vm_compute. Qed.

(** ** The fallback test (lines 94-97) and the signal test (line 90) *)


Lemma non_error_status_spec (status : value) :
  non_error_status status = true
  <-> exists n, status = VNumber n /\ outside 400 600 n.
Proof.
  unfold non_error_status, outside. split.
  - destruct status as [| | |n| | |]; try discriminate.
    intros H. exists n. split; [done|]. by apply orb_true_iff.
  - intros (n & -> & H). by apply orb_true_iff.
Qed.




Lemma scan_signals_no_non_error (args : list value) :
  forall i, ~ In NonErrorStatus (scan_signals i args).
Proof.
  induction args as [|arg rest IH]; intros i; [intros []|].
  destruct arg; simpl; try apply IH.
  rewrite in_app_iff. intros [H|H]; [|by apply IH in H].
  destruct (Nat.eqb i 0); simpl in H; [done|].
  by destruct H.
Qed.

Lemma createError_signals_non_error (args : list value) :
  In NonErrorStatus (createError_signals args)
  <-> non_error_status (l_status (scan_locals args)) = true.
Proof.
  unfold createError_signals. rewrite in_app_iff. split.
  - intros [H|H]; [by apply scan_signals_no_non_error in H|].
    by destruct (non_error_status _).
  - intros ->. right. by left.
Qed.

(** ** Bags that differ in their [status] and [statusCode] keys *)







(** ** The argument loop, category by category *)













(** ** Double registration *)

Section Registration.

Context (st : Statuses) (c : Z) (phrase : string).
Hypothesis Hphrase : statuses_message st !! to_key (Finite c) = Some phrase.
Hypothesis Hrange : 400 <= c < 600.
Hypothesis Hdistinct :
  forall c' phrase',
    In c' (statuses_codes st) -> c' <> c ->
    statuses_message st !! to_key (Finite c') = Some phrase' ->
    toIdentifier phrase' <> toIdentifier phrase
    /\ toIdentifier phrase' <> to_key (Finite c)
    /\ to_key (Finite c') <> toIdentifier phrase.

#[local] Abbreviation registered := (registered c phrase).

Lemma forEachCode_registers (exports exports' : gmap string ctor) :
  forEachCode st exports c = Ok exports' -> registered exports'.
Proof.
  unfold forEachCode. rewrite Hphrase.
  unfold createClientErrorConstructor, createServerErrorConstructor,
    createCodeErrorConstructor.
  assert (Hreg : forall parent client,
            client = (c <? 500) ->
            registered
              (<[toIdentifier phrase :=
                   CodeErrorCtor parent (toClassName (toIdentifier phrase))
                                 c client]>
                 (<[to_key (Finite c) :=
                      CodeErrorCtor parent (toClassName (toIdentifier phrase))
                                    c client]> exports))).
  { intros parent client ->. exists parent. cbv zeta. split.
    - destruct (decide (toIdentifier phrase = to_key (Finite c))) as [->|Hne].
      + by rewrite lookup_insert_eq.
      + rewrite lookup_insert_ne by done. by rewrite lookup_insert_eq.
    - by rewrite lookup_insert_eq. }
  destruct (Z_lt_ge_dec c 500) as [Hlt|Hge].
  - rewrite codeClass_4xx by lia. rewrite decide_True by done.
    destruct (exports !! "HttpError") as [parent|]; [|discriminate].
    intros [= <-]. apply Hreg. symmetry. by apply Z.ltb_lt.
  - rewrite codeClass_5xx by lia. rewrite decide_False by discriminate.
    rewrite decide_True by done.
    destruct (exports !! "HttpError") as [parent|]; [|discriminate].
    intros [= <-]. apply Hreg. symmetry. apply Z.ltb_ge. lia.
Qed.

Lemma forEachCode_keeps (exports exports' : gmap string ctor) (code : Z) :
  In code (statuses_codes st) -> code <> c ->
  forEachCode st exports code = Ok exports' ->
  registered exports -> registered exports'.
Proof.
  intros Hin Hne. unfold forEachCode.
  destruct (statuses_message st !! to_key (Finite code)) as [phrase'|] eqn:Hp;
    [|discriminate].
  destruct (Hdistinct code phrase' Hin Hne Hp) as (Hn1 & Hn2 & Hn3).
  assert (Hk : to_key (Finite code) <> to_key (Finite c)).
  { intros H. by apply to_key_finite_inj in H. }
  unfold createClientErrorConstructor, createServerErrorConstructor,
    createCodeErrorConstructor.
  assert (Hkeep : forall C',
            registered exports ->
            registered (<[toIdentifier phrase' := C']>
                          (<[to_key (Finite code) := C']> exports))).
  { intros C' (parent & H1 & H2). exists parent. cbv zeta.
    by rewrite !lookup_insert_ne. }
  destruct (decide (codeClass (Finite code) = Finite 400)).
  - destruct (exports !! "HttpError"); [|discriminate].
    intros [= <-]. apply Hkeep.
  - destruct (decide (codeClass (Finite code) = Finite 500)).
    + destruct (exports !! "HttpError"); [|discriminate].
      intros [= <-]. apply Hkeep.
    + by intros [= <-].
Qed.

Lemma populateConstructorExports_registers (codes : list Z) :
  (forall code, In code codes -> In code (statuses_codes st)) ->
  forall exports exports',
    populateConstructorExports st codes exports = Ok exports' ->
    In c codes \/ registered exports ->
    registered exports'.
Proof.
  induction codes as [|code rest IH]; intros Hsub exports exports'; simpl.
  - intros [= <-] [[]|H]. exact H.
  - destruct (forEachCode st exports code) as [e1|] eqn:Hstep; [|discriminate].
    intros Hrest Hc. apply (IH (fun x Hx => Hsub x (or_intror Hx)) e1 _ Hrest).
    destruct (decide (code = c)) as [->|Hne].
    + right. by eapply forEachCode_registers.
    + destruct Hc as [[Heq|Hin]|Hreg]; [done|by left|].
      right. eapply forEachCode_keeps; [|done|done|done].
      apply Hsub. by left.
Qed.

End Registration.

(** * The properties of the specification *)

Section Loaded.

Context (st : Statuses) (exports : gmap string ctor).
Hypothesis Hload : module_exports st = Ok exports.

(** C1.  For every known status code [c] in [[400, 599)] with a reason
    phrase, [createError(c)] returns an error whose [status] and [statusCode]
    are [c] and whose [expose] is [c < 500]; no signal is emitted. *)
Theorem createError_known_status (c : Z) (phrase : string)
    (log : list deprecation) :
  In c (statuses_codes st) ->
  statuses_message st !! to_key (Finite c) = Some phrase ->
  400 <= c < 599 ->
  exists err,
    createError st exports [VNumber (Finite c)] log = (log, Ok err)
    /\ get err "status" = VNumber (Finite c)
    /\ get err "statusCode" = VNumber (Finite c)
    /\ get err "expose" = VBool (c <? 500).
Proof.
  intros _ _ Hc. apply createError_status_code; [|lia].
  exact (module_exports_invariant st exports Hload).
Qed.

(** C2.  If no constructor matched the resolved status, or the adopted error
    is not an instance of the matched constructor, or the adopted error's
    [status] differs from the resolved status, then lines 110-114 stamp
    [expose = (status < 500)] and force [status] and [statusCode] to the
    resolved status, whatever the error held before, equal status or not.
    [status] and [statusCode] survive the copy loop, and so does [expose]
    unless the properties bag has an [expose] key of its own. *)
Theorem createError_stamps (args : list value) (log : list deprecation) :
  let l := scan_locals args in
  let status := resolve_status st (l_status l) in
  let HttpError := select_constructor exports status in
  (HttpError = None
   \/ (exists e c, l_err l = Some e /\ HttpError = Some c
                   /\ instanceof e c = false)
   \/ (exists e, l_err l = Some e
                 /\ strict_eq_number (get e "status") status = false)) ->
  exists e0,
    instantiate st HttpError l status = Ok e0
    /\ (forall e, l_err l = Some e -> e0 = e)
    /\ createError st exports args log
       = (log ++ createError_signals args,
          Ok (assign_props (l_props l) (stamp HttpError status e0)))
    /\ get (stamp HttpError status e0) "expose"
       = VBool (num_lt status (Finite 500))
    /\ get (stamp HttpError status e0) "status" = VNumber status
    /\ get (stamp HttpError status e0) "statusCode" = VNumber status
    /\ get (assign_props (l_props l) (stamp HttpError status e0)) "status"
       = VNumber status
    /\ get (assign_props (l_props l) (stamp HttpError status e0)) "statusCode"
       = VNumber status
    /\ (for_in (l_props l) !! "expose" = None ->
        get (assign_props (l_props l) (stamp HttpError status e0)) "expose"
        = VBool (num_lt status (Finite 500))).
Proof.
  intros l status HttpError Hcond.
  pose proof (module_exports_invariant st exports Hload) as Hinv.
  destruct (createError_returns st exports args log Hinv)
    as (e0 & He0 & _ & Hrun & _).
  fold l status HttpError in He0, Hrun.
  assert (Hadopt : forall e, l_err l = Some e -> e0 = e).
  { intros e He. unfold instantiate in He0. rewrite He in He0. congruence. }
  assert (Hn : needs_stamp HttpError status e0 = true).
  { destruct Hcond as [Hnone|[(e & c & He & Hc & Hi)|(e & He & Hs)]].
    - by rewrite Hnone.
    - rewrite (Hadopt e He), Hc. simpl. by rewrite Hi.
    - rewrite (Hadopt e He). unfold needs_stamp.
      destruct HttpError; [|done]. rewrite Hs. apply orb_true_r. }
  destruct (stamp_stamped _ _ _ Hn) as (Hex & Hst & Hsc & _).
  exists e0. repeat split; try done.
  - by rewrite assign_props_get.
  - by rewrite assign_props_get.
  - intros Hbag. rewrite assign_props_get, Hbag. by destruct (copied_key "expose").
Qed.


(** C4 (amended).  The non-error status signal is emitted if and only if the
    status after the argument loop is a number [n] with [n < 400] or
    [n >= 600], whether or not [n] is a known status code; what a call
    appends to the deprecation log and what it returns do not depend on the
    log, so the signal does not alter the returned value. *)
Theorem non_error_status_signal (args : list value) :
  let s := l_status (scan_locals args) in
  exists emitted r,
    (forall log,
       createError st exports args log = (log ++ emitted, r))
    /\ (In NonErrorStatus emitted
        <-> exists n, s = VNumber n /\ outside 400 600 n).
Proof.
  intros s.
  pose proof (module_exports_invariant st exports Hload) as Hinv.
  destruct (createError_returns st exports args [] Hinv)
    as (e0 & He0 & _ & _ & _).
  exists (createError_signals args). eexists. split.
  - intros log. rewrite createError_run. cbv zeta. by rewrite He0.
  - by rewrite createError_signals_non_error, non_error_status_spec.
Qed.

(** C5.  [isHttpError] is false for null, undefined and every value that is
    not an object; true for every object whose prototype chain includes the
    abstract base; and for any other object true exactly when it is an
    [Error] with a boolean [expose], a numeric [statusCode] and
    [status === statusCode]. *)
Theorem isHttpError_characterised (val : value) (o : object) :
  (val = VUndefined \/ val = VNull \/ typeof val <> TyObject ->
   isHttpError val = false)
  /\ (instanceof o HttpErrorCtor = true -> isHttpError (VObject o) = true)
  /\ (instanceof o HttpErrorCtor = false ->
      (isHttpError (VObject o) = true
       <-> instanceof_Error o = true
           /\ (exists b, get o "expose" = VBool b)
           /\ (exists n, get o "statusCode" = VNumber n
                         /\ strict_eq_number (get o "status") n = true))).
Proof.
  split; [|split].
  - intros [->|[->|H]]; [done|done|]. by destruct val.
  - intros H. simpl. by rewrite H.
  - intros H. simpl. rewrite H. rewrite !andb_true_iff, bool_decide_eq_true.
    split.
    + intros [[He Hx] Hs]. split; [done|]. split.
      * destruct (get o "expose"); try done. by eexists.
      * destruct (get o "statusCode") as [| | |n| | |]; try done. by exists n.
    + intros (He & [b Hb] & (n & Hn & Hs)). rewrite Hb, Hn. done.
Qed.



(** C8.  For every known status code [c] of the 4xx or 5xx range, in a
    table whose other codes have other identifiers and no identifier that
    is a code, the registry holds one and the same constructor under the key
    [c] and under the identifier derived from the reason phrase of [c];
    called with no message it returns an error whose message is that reason
    phrase, whose [status] and [statusCode] are [c] and whose [expose] is
    [c < 500]. *)
Theorem registry_double_registration (c : Z) (phrase : string) :
  In c (statuses_codes st) ->
  statuses_message st !! to_key (Finite c) = Some phrase ->
  400 <= c < 600 ->
  (forall c' phrase',
     In c' (statuses_codes st) -> c' <> c ->
     statuses_message st !! to_key (Finite c') = Some phrase' ->
     toIdentifier phrase' <> toIdentifier phrase
     /\ toIdentifier phrase' <> to_key (Finite c)
     /\ to_key (Finite c') <> toIdentifier phrase) ->
  exists parent err,
    let C := CodeErrorCtor parent (toClassName (toIdentifier phrase)) c
                           (c <? 500) in
    exports !! to_key (Finite c) = Some C
    /\ exports !! toIdentifier phrase = Some C
    /\ construct st C VUndefined = Ok err
    /\ instanceof err C = true
    /\ get err "message" = VString phrase
    /\ get err "status" = VNumber (Finite c)
    /\ get err "statusCode" = VNumber (Finite c)
    /\ get err "expose" = VBool (c <? 500).
Proof.
  intros Hin Hphrase Hrange Hdistinct.
  destruct (populateConstructorExports_registers st c phrase Hphrase Hrange
              Hdistinct (statuses_codes st) (fun _ H => H)
              initial_exports exports Hload (or_introl Hin))
    as (parent & H1 & H2).
  destruct (construct_code st parent (toClassName (toIdentifier phrase)) c
              (c <? 500) VUndefined)
    as (err & Hc & Hp & Hs & Hsc & Hex & _ & Hm).
  exists parent, err. cbv zeta. repeat split; try done.
  - unfold instanceof. rewrite Hp. apply ctor_inherits_refl.
  - rewrite Hm. unfold message_of. by rewrite Hphrase.
Qed.



End Loaded.

(** * The properties on the sample table *)

Lemma createError_known_status_witness :
  module_exports sample_statuses = Ok sample_exports
  /\ In 404 (statuses_codes sample_statuses)
  /\ statuses_message sample_statuses !! to_key (Finite 404) = Some "Not Found"
  /\ 400 <= 404 < 599
  /\ exists err,
       createError sample_statuses sample_exports [VNumber (Finite 404)] []
       = ([], Ok err)
       /\ get err "status" = VNumber (Finite 404)
       /\ get err "statusCode" = VNumber (Finite 404)
       /\ get err "expose" = VBool (404 <? 500).
Proof.
  assert (H1 : module_exports sample_statuses = Ok sample_exports)
    by (vm_compute; reflexivity).
  assert (H2 : In 404 (statuses_codes sample_statuses))
    by (simpl; tauto).
  assert (H3 : statuses_message sample_statuses !! to_key (Finite 404)
               = Some "Not Found") by (vm_compute; reflexivity).
  assert (H4 : 400 <= 404 < 599) by lia.
  repeat split; try assumption; try lia.
  exact (createError_known_status sample_statuses sample_exports H1
           404 "Not Found" [] H2 H3 H4).
Defined.

Lemma createError_stamps_witness :
  let args := [VObject sample_adopted] in
  let l := scan_locals args in
  let status := resolve_status sample_statuses (l_status l) in
  let HttpError := select_constructor sample_exports status in
  module_exports sample_statuses = Ok sample_exports
  /\ status = Finite 404
  /\ HttpError = Some sample_NotFound
  /\ l_err l = Some sample_adopted
  /\ instanceof sample_adopted sample_NotFound = false
  /\ exists e0,
       instantiate sample_statuses HttpError l status = Ok e0
       /\ (forall e, l_err l = Some e -> e0 = e)
       /\ createError sample_statuses sample_exports args []
          = ([] ++ createError_signals args,
             Ok (assign_props (l_props l) (stamp HttpError status e0)))
       /\ get (stamp HttpError status e0) "expose"
          = VBool (num_lt status (Finite 500))
       /\ get (stamp HttpError status e0) "status" = VNumber status
       /\ get (stamp HttpError status e0) "statusCode" = VNumber status
       /\ get (assign_props (l_props l) (stamp HttpError status e0)) "status"
          = VNumber status
       /\ get (assign_props (l_props l) (stamp HttpError status e0)) "statusCode"
          = VNumber status
       /\ (for_in (l_props l) !! "expose" = None ->
           get (assign_props (l_props l) (stamp HttpError status e0)) "expose"
           = VBool (num_lt status (Finite 500))).
Proof.
  intros args l status HttpError.
  assert (H1 : module_exports sample_statuses = Ok sample_exports)
    by (vm_compute; reflexivity).
  assert (H2 : status = Finite 404) by (vm_compute; reflexivity).
  assert (H3 : HttpError = Some sample_NotFound) by (vm_compute; reflexivity).
  assert (H4 : l_err l = Some sample_adopted) by (vm_compute; reflexivity).
  assert (H5 : instanceof sample_adopted sample_NotFound = false)
    by (vm_compute; reflexivity).
  repeat (split; [assumption|]).
  apply (createError_stamps sample_statuses sample_exports H1 args []).
  right. left. exists sample_adopted, sample_NotFound.
  repeat split; assumption.
Defined.


Lemma non_error_status_signal_witness :
  module_exports sample_statuses = Ok sample_exports
  /\ exists emitted r,
       (forall log,
          createError sample_statuses sample_exports [VNumber (Finite 200)] log
          = (log ++ emitted, r))
       /\ (In NonErrorStatus emitted
           <-> exists n, l_status (scan_locals [VNumber (Finite 200)]) = VNumber n
                         /\ outside 400 600 n).
Proof.
  assert (H1 : module_exports sample_statuses = Ok sample_exports)
    by (vm_compute; reflexivity).
  split; [assumption|].
  exact (non_error_status_signal sample_statuses sample_exports H1
           [VNumber (Finite 200)]).
Defined.

(** C4 as stated fails in both directions: [createError(200)] emits the
    signal although 200 is a known status code, and [createError(599)] emits
    none although 599 is outside [[400, 599)] and not a known code. *)
Lemma announced_signal_condition_fails :
  (In NonErrorStatus
      (fst (createError sample_statuses sample_exports
              [VNumber (Finite 200)] []))
   /\ ~ announced_signal_condition sample_statuses
          (l_status (scan_locals [VNumber (Finite 200)])))
  /\ (~ In NonErrorStatus
          (fst (createError sample_statuses sample_exports
                  [VNumber (Finite 599)] []))
      /\ announced_signal_condition sample_statuses
           (l_status (scan_locals [VNumber (Finite 599)]))).
Proof.
  split; split.
  - vm_compute. by left.
  - intros (n & Hn & _ & Hknown). apply Hknown.
    injection Hn as <-. exists 200. split; [done|]. simpl. tauto.
  - vm_compute. tauto.
  - exists (Finite 599). split; [done|]. split.
    + intros (c & [= <-] & Hc). lia.
    + intros (c & [= <-] & Hin). simpl in Hin.
      repeat destruct Hin as [Hin|Hin]; try discriminate. done.
Qed.

(** An object with the shape of an HTTP error that this module did not
    build: [Object.assign(new Error(), {expose: false, statusCode: 500,
    status: 500})]. *)
Lemma isHttpError_characterised_witness :
  let o := Obj ProtoError
             {[ "expose" := VBool false; "statusCode" := VNumber (Finite 500);
                "status" := VNumber (Finite 500) ]} in
  instanceof o HttpErrorCtor = false
  /\ isHttpError (VObject o) = true
  /\ isHttpError (VObject (Obj ProtoObject ∅)) = false
  /\ isHttpError VNull = false.
Proof.
  intros o.
  assert (H1 : instanceof o HttpErrorCtor = false) by (vm_compute; reflexivity).
  split; [assumption|]. split; [|split].
  - destruct (isHttpError_characterised VNull o) as (_ & _ & H).
    apply (H H1). split; [vm_compute; reflexivity|]. split.
    + exists false. vm_compute. reflexivity.
    + exists (Finite 500). split; vm_compute; reflexivity.
  - vm_compute. reflexivity.
  - destruct (isHttpError_characterised VNull o) as (H & _ & _).
    apply H. right. left. reflexivity.
Defined.



Lemma registry_double_registration_witness :
  module_exports sample_statuses = Ok sample_exports
  /\ In 404 (statuses_codes sample_statuses)
  /\ statuses_message sample_statuses !! to_key (Finite 404) = Some "Not Found"
  /\ 400 <= 404 < 600
  /\ (forall c' phrase',
        In c' (statuses_codes sample_statuses) -> c' <> 404 ->
        statuses_message sample_statuses !! to_key (Finite c') = Some phrase' ->
        toIdentifier phrase' <> toIdentifier "Not Found"
        /\ toIdentifier phrase' <> to_key (Finite 404)
        /\ to_key (Finite c') <> toIdentifier "Not Found")
  /\ sample_exports !! "404" = Some sample_NotFound
  /\ sample_exports !! "NotFound" = Some sample_NotFound
  /\ exists err,
       construct sample_statuses sample_NotFound VUndefined = Ok err
       /\ get err "message" = VString "Not Found"
       /\ get err "status" = VNumber (Finite 404)
       /\ get err "statusCode" = VNumber (Finite 404)
       /\ get err "expose" = VBool true.
Proof.
  assert (H1 : module_exports sample_statuses = Ok sample_exports)
    by (vm_compute; reflexivity).
  assert (H2 : In 404 (statuses_codes sample_statuses)) by (simpl; tauto).
  assert (H3 : statuses_message sample_statuses !! to_key (Finite 404)
               = Some "Not Found") by (vm_compute; reflexivity).
  assert (H4 : 400 <= 404 < 600) by lia.
  assert (H5 : forall c' phrase',
            In c' (statuses_codes sample_statuses) -> c' <> 404 ->
            statuses_message sample_statuses !! to_key (Finite c')
            = Some phrase' ->
            toIdentifier phrase' <> toIdentifier "Not Found"
            /\ toIdentifier phrase' <> to_key (Finite 404)
            /\ to_key (Finite c') <> toIdentifier "Not Found").
  { intros c' phrase' Hin Hne Hp. simpl in Hin.
    repeat (destruct Hin as [<-|Hin]; [try (exfalso; apply Hne; reflexivity)|]);
      try contradiction;
      vm_compute in Hp; injection Hp as <-;
      (split; [|split]); vm_compute; discriminate. }
  destruct (registry_double_registration sample_statuses sample_exports H1
              404 "Not Found" H2 H3 H4 H5)
    as (parent & err & Hk & Hn & Hc & _ & Hm & Hs & Hsc & He).
  assert (Hparent : parent = HttpErrorCtor).
  { assert (Hv : sample_exports !! "404" = Some sample_NotFound)
      by (vm_compute; reflexivity).
    change (to_key (Finite 404)) with "404" in Hk.
    rewrite Hv in Hk. unfold sample_NotFound in Hk. congruence. }
  subst parent.
  split; [exact H1|]. split; [exact H2|]. split; [exact H3|].
  split; [exact H4|]. split; [exact H5|].
  split; [exact Hk|]. split; [exact Hn|].
  exists err. repeat split; assumption.
Defined.




(** A second way out of [isHttpError], left aside by the amended C10:
    [createError(NaN)] keeps the status [NaN], which is not [===] to itself. *)
Lemma createError_NaN :
  exists err,
    createError sample_statuses sample_exports [VNumber NaN] [] = ([], Ok err)
    /\ get err "status" = VNumber NaN
    /\ get err "statusCode" = VNumber NaN
    /\ isHttpError (VObject err) = false.
Proof.
  eexists. split; [vm_compute; reflexivity|].
  repeat split; vm_compute; reflexivity.
Qed.

(** * Examples of the specification on the sample table *)

(** [createError('message', 404)]: the message wins over the reason phrase,
    and the trailing status code is signalled once. *)
Example createError_message_then_status :
  exists err,
    createError sample_statuses sample_exports
      [VString "message"; VNumber (Finite 404)] []
    = ([NonFirstArgumentStatus (Finite 404)], Ok err)
    /\ get err "status" = VNumber (Finite 404)
    /\ get err "message" = VString "message"
    /\ instanceof err sample_NotFound = true.
Proof.
  eexists. split; [vm_compute; reflexivity|].
  repeat split; vm_compute; reflexivity.
Qed.

(** [createError(new Error('boom'), 418)] *)
Example createError_adopts_error :
  exists err,
    createError sample_statuses sample_exports
      [VObject sample_error; VNumber (Finite 418)] []
    = ([NonFirstArgumentStatus (Finite 418)], Ok err)
    /\ get err "message" = VString "boom"
    /\ get err "status" = VNumber (Finite 418)
    /\ get err "statusCode" = VNumber (Finite 418)
    /\ get err "expose" = VBool true
    /\ obj_proto err = ProtoError.
Proof.
  eexists. split; [vm_compute; reflexivity|].
  repeat split; vm_compute; reflexivity.
Qed.

(** [createError(450)]: no constructor for 450, the one of class 400 builds
    the error and the status is stamped on it. *)
Example createError_class_constructor :
  exists err,
    createError sample_statuses sample_exports [VNumber (Finite 450)] []
    = ([], Ok err)
    /\ get err "name" = VString "BadRequestError"
    /\ get err "status" = VNumber (Finite 450)
    /\ get err "expose" = VBool true.
Proof.
  eexists. split; [vm_compute; reflexivity|].
  repeat split; vm_compute; reflexivity.
Qed.

(** [isHttpError(createError(500))] and [isHttpError({})] *)
Example isHttpError_examples :
  (exists err,
     createError sample_statuses sample_exports [VNumber (Finite 500)] []
     = ([], Ok err)
     /\ isHttpError (VObject err) = true)
  /\ isHttpError (VObject (Obj ProtoObject ∅)) = false.
Proof.
  split; [|reflexivity].
  eexists. split; vm_compute; reflexivity.
Qed.

(** The text of the two signals. *)
Example deprecation_messages :
  deprecation_message (NonFirstArgumentStatus (Finite 404))
  = "non-first-argument status code; replace with createError(404, ...)"
  /\ deprecation_message NonErrorStatus
     = "non-error status code; use only 4xx or 5xx status codes".
Proof. split; reflexivity. Qed.

(** Identifiers and class names of the sample reason phrases. *)
Example toIdentifier_examples :
  toIdentifier "Not Found" = "NotFound"
  /\ toIdentifier "I'm a Teapot" = "ImATeapot"
  /\ toIdentifier "Request Entity Too Large" = "RequestEntityTooLarge"
  /\ toClassName "NotFound" = "NotFoundError"
  /\ toClassName "InternalServerError" = "InternalServerError"
  /\ codeClass (Finite 404) = Finite 400
  /\ codeClass (Finite 503) = Finite 500
  /\ codeClass (Finite 200) = Finite 200.
Proof. repeat split; vm_compute; reflexivity. Qed.

(** * Further properties of the module *)

(** ** Identifiers and class names *)

Lemma string_forallb_app (P : ascii -> bool) (s1 s2 : string) :
  string_forallb P (s1 +:+ s2) = string_forallb P s1 && string_forallb P s2.
Proof.
  induction s1 as [|c s1 IH]; simpl; [done|].
  by rewrite IH, andb_assoc.
Qed.

Lemma string_forallb_impl (P Q : ascii -> bool) (s : string) :
  (forall c, P c = true -> Q c = true) ->
  string_forallb P s = true -> string_forallb Q s = true.
Proof.
  intros HPQ. induction s as [|c s IH]; simpl; [done|].
  rewrite !andb_true_iff. intros [Hc Hs]. split; [by apply HPQ|by apply IH].
Qed.

Lemma filter_string_forallb (keep : ascii -> bool) (s : string) :
  string_forallb keep (filter_string keep s) = true.
Proof.
  induction s as [|c s IH]; simpl; [done|].
  destruct (keep c) eqn:Hc; simpl; [|done]. by rewrite Hc.
Qed.

Lemma filter_string_app (keep : ascii -> bool) (s1 s2 : string) :
  filter_string keep (s1 +:+ s2)
  = filter_string keep s1 +:+ filter_string keep s2.
Proof.
  induction s1 as [|c s1 IH]; simpl; [done|].
  rewrite IH. by destruct (keep c).
Qed.

Lemma filter_string_id (keep : ascii -> bool) (s : string) :
  string_forallb keep s = true -> filter_string keep s = s.
Proof.
  induction s as [|c s IH]; simpl; [done|].
  rewrite andb_true_iff. intros [-> Hs]. by rewrite IH.
Qed.

Lemma filter_string_filter (P Q : ascii -> bool) (s : string) :
  string_forallb Q s = true ->
  string_forallb Q (filter_string P s) = true.
Proof.
  induction s as [|c s IH]; simpl; [done|].
  rewrite andb_true_iff. intros [Hc Hs].
  destruct (P c); simpl; [rewrite Hc|]; by apply IH.
Qed.

Lemma string_append_cons (c : ascii) (s t : string) :
  String c s +:+ t = String c (s +:+ t).
Proof. reflexivity. Qed.

Lemma string_append_assoc (s1 s2 s3 : string) :
  (s1 +:+ s2) +:+ s3 = s1 +:+ (s2 +:+ s3).
Proof.
  induction s1 as [|c s1 IH]; [done|].
  by rewrite !string_append_cons, IH.
Qed.

Lemma string_append_nil_r (s : string) : s +:+ "" = s.
Proof.
  induction s as [|c s IH]; [done|]. by rewrite string_append_cons, IH.
Qed.

Lemma join_empty_app (l1 l2 : list string) :
  join_empty (l1 ++ l2) = join_empty l1 +:+ join_empty l2.
Proof.
  induction l1 as [|t l1 IH]; [done|].
  change (join_empty ((t :: l1) ++ l2)) with (t +:+ join_empty (l1 ++ l2)).
  change (join_empty (t :: l1)) with (t +:+ join_empty l1).
  by rewrite IH, string_append_assoc.
Qed.

(** Splitting distributes over a whitespace character. *)
Lemma split_whitespace_app (a b : string) (w : ascii) :
  is_whitespace w = true ->
  forall cur,
    split_whitespace cur (a +:+ String w b)
    = split_whitespace cur a ++ split_whitespace "" b.
Proof.
  intros Hw. induction a as [|c a IH]; intros cur; simpl.
  - by rewrite Hw.
  - destruct (is_whitespace c); by rewrite IH.
Qed.

(** Without whitespace there is one token. *)
Lemma split_whitespace_word (s : string) :
  string_forallb (fun c => negb (is_whitespace c)) s = true ->
  forall cur, split_whitespace cur s = [cur +:+ s].
Proof.
  induction s as [|c s IH]; intros Hs cur; simpl.
  - by rewrite string_append_nil_r.
  - simpl in Hs. apply andb_true_iff in Hs as [Hc Hs].
    apply negb_true_iff in Hc. rewrite Hc, IH by done.
    by rewrite string_append_assoc.
Qed.

(** The tokens hold no whitespace. *)
Lemma split_whitespace_tokens (s : string) :
  forall cur,
    string_forallb (fun c => negb (is_whitespace c)) cur = true ->
    Forall (fun t => string_forallb (fun c => negb (is_whitespace c)) t = true)
           (split_whitespace cur s).
Proof.
  induction s as [|c s IH]; intros cur Hcur; simpl.
  - by constructor.
  - destruct (is_whitespace c) eqn:Hc.
    + constructor; [done|]. by apply IH.
    + apply IH. rewrite string_forallb_app, Hcur. simpl. by rewrite Hc.
Qed.

Lemma toUpperCase_not_whitespace (c : ascii) :
  is_whitespace c = false -> is_whitespace (toUpperCase_ascii c) = false.
Proof.
  destruct c as [[] [] [] [] [] [] [] []]; vm_compute; congruence.
Qed.

Lemma toUpperCase_word_char (c : ascii) :
  word_char c = true -> word_char (toUpperCase_ascii c) = true.
Proof.
  destruct c as [[] [] [] [] [] [] [] []]; vm_compute; congruence.
Qed.

Lemma identifier_char_word (c : ascii) :
  identifier_char c = true -> is_whitespace c = false -> word_char c = true.
Proof.
  destruct c as [[] [] [] [] [] [] [] []]; vm_compute; congruence.
Qed.

Lemma word_char_identifier (c : ascii) :
  word_char c = true -> identifier_char c = true /\ is_whitespace c = false.
Proof.
  destruct c as [[] [] [] [] [] [] [] []]; vm_compute; split; congruence.
Qed.

Lemma capitalize_no_whitespace (t : string) :
  string_forallb (fun c => negb (is_whitespace c)) t = true ->
  string_forallb (fun c => negb (is_whitespace c)) (capitalize t) = true.
Proof.
  destruct t as [|c t]; simpl; [done|].
  rewrite !andb_true_iff, !negb_true_iff. intros [Hc Ht].
  split; [by apply toUpperCase_not_whitespace|done].
Qed.

Lemma join_capitalize_no_whitespace (tokens : list string) :
  Forall (fun t => string_forallb (fun c => negb (is_whitespace c)) t = true)
         tokens ->
  string_forallb (fun c => negb (is_whitespace c))
                 (join_empty (map capitalize tokens)) = true.
Proof.
  induction 1 as [|t tokens Ht _ IH]; [done|].
  change (join_empty (map capitalize (t :: tokens)))
    with (capitalize t +:+ join_empty (map capitalize tokens)).
  rewrite string_forallb_app, IH, andb_true_r.
  by apply capitalize_no_whitespace.
Qed.

(** X1.  [toIdentifier] returns letters, digits and underscores only:
    whitespace is consumed by the split, everything else by the replace. *)
Theorem toIdentifier_word_chars (str : string) :
  string_forallb word_char (toIdentifier str) = true.
Proof.
  unfold toIdentifier.
  apply (string_forallb_impl
           (fun c => identifier_char c && negb (is_whitespace c))).
  { intros c. rewrite andb_true_iff, negb_true_iff.
    intros [H1 H2]. by apply identifier_char_word. }
  set (joined := join_empty (map capitalize (split_whitespace "" str))).
  assert (Hj : string_forallb (fun c => negb (is_whitespace c)) joined = true).
  { apply join_capitalize_no_whitespace. by apply split_whitespace_tokens. }
  clearbody joined. induction joined as [|c s IH]; simpl; [done|].
  simpl in Hj. apply andb_true_iff in Hj as [Hc Hs].
  destruct (identifier_char c) eqn:Hi; simpl; [|by apply IH].
  by rewrite Hi, Hc, IH.
Qed.

(** X2.  [toIdentifier] works token by token: the identifier of two strings
    separated by a whitespace character is the concatenation of their
    identifiers. *)
Theorem toIdentifier_whitespace (a b : string) (w : ascii) :
  is_whitespace w = true ->
  toIdentifier (a +:+ String w b) = toIdentifier a +:+ toIdentifier b.
Proof.
  intros Hw. unfold toIdentifier.
  rewrite split_whitespace_app by done.
  by rewrite map_app, join_empty_app, filter_string_app.
Qed.

Lemma toIdentifier_whitespace_witness :
  is_whitespace " " = true
  /\ toIdentifier ("Not" +:+ String " " "Found")
     = toIdentifier "Not" +:+ toIdentifier "Found".
Proof.
  split; [reflexivity|].
  apply (toIdentifier_whitespace "Not" "Found" " "). reflexivity.
Defined.

(** X3.  On a single word of letters, digits and underscores,
    [toIdentifier] only turns the first character to upper case. *)
Theorem toIdentifier_word (s : string) :
  string_forallb word_char s = true -> toIdentifier s = capitalize s.
Proof.
  intros Hs. unfold toIdentifier.
  rewrite split_whitespace_word.
  - change (join_empty (map capitalize ["" +:+ s])) with (capitalize s +:+ "").
    rewrite string_append_nil_r. apply filter_string_id.
    destruct s as [|c s]; simpl in *; [done|].
    apply andb_true_iff in Hs as [Hc Hs]. apply andb_true_iff. split.
    + by apply word_char_identifier, toUpperCase_word_char.
    + revert Hs. apply string_forallb_impl.
      intros c' Hc'. by apply word_char_identifier.
  - revert Hs. apply string_forallb_impl.
    intros c Hc. apply negb_true_iff. by apply word_char_identifier.
Qed.

Lemma toIdentifier_word_witness :
  string_forallb word_char "teapot_418" = true
  /\ toIdentifier "teapot_418" = "Teapot_418".
Proof.
  split; [reflexivity|].
  apply (toIdentifier_word "teapot_418"). reflexivity.
Defined.

Lemma string_length_app (s t : string) :
  String.length (s +:+ t) = (String.length s + String.length t)%nat.
Proof.
  induction s as [|c s IH]; [done|].
  rewrite string_append_cons. simpl. by rewrite IH.
Qed.

Lemma substring_skip (s t : string) (n : nat) :
  substring (String.length s) n (s +:+ t) = substring 0 n t.
Proof.
  induction s as [|c s IH]; [done|].
  rewrite string_append_cons. simpl. exact IH.
Qed.

Lemma substr_last5_app_Error (name : string) :
  substr_last5 (name +:+ "Error") = "Error".
Proof.
  unfold substr_last5. rewrite string_length_app. simpl String.length.
  replace (String.length name + 5 - 5)%nat with (String.length name) by lia.
  by rewrite substring_skip.
Qed.

(** X4.  A class name always ends in [Error]; [toClassName] leaves a name
    alone exactly when it already does, and applying it twice changes
    nothing more. *)
Theorem toClassName_suffix (name : string) :
  substr_last5 (toClassName name) = "Error"
  /\ (toClassName name = name <-> substr_last5 name = "Error")
  /\ (substr_last5 name <> "Error" -> toClassName name = name +:+ "Error")
  /\ toClassName (toClassName name) = toClassName name.
Proof.
  assert (H1 : substr_last5 (toClassName name) = "Error").
  { unfold toClassName.
    destruct (String.eqb_spec (substr_last5 name) "Error") as [He|Hne];
      [done|apply substr_last5_app_Error]. }
  split; [exact H1|]. split; [|split].
  - split.
    + intros H. by rewrite <- H.
    + intros H. unfold toClassName. by rewrite H.
  - intros H. unfold toClassName.
    by destruct (String.eqb_spec (substr_last5 name) "Error").
  - unfold toClassName at 1. by rewrite H1.
Qed.

(** ** Code classes *)

Lemma codeClass_range (lo : Z) (len : nat) (f : Z -> Z) :
  forallb (fun c => bool_decide (codeClass (Finite c) = Finite (f c)))
          (map (fun k => lo + Z.of_nat k) (seq 0 len)) = true ->
  forall c, lo <= c < lo + Z.of_nat len -> codeClass (Finite c) = Finite (f c).
Proof.
  intros H c Hc.
  pose (P := fun c => bool_decide (codeClass (Finite c) = Finite (f c))).
  assert (HP : P c = true) by (by apply (forallb_range P lo len)).
  by apply bool_decide_eq_true_1 in HP.
Qed.

(** X5.  The code class is a hundred times the first digit of the code: of
    a status code of three digits it is the hundred below it, but of a code
    of one or two digits it is not (4 and 45 are of class 400).  A negative
    number and [-Infinity] are of class 0, [NaN] and [Infinity] of class
    [NaN]. *)
Theorem codeClass_first_digit (c : Z) :
  (100 <= c < 1000 -> codeClass (Finite c) = Finite (100 * (c / 100)))
  /\ (10 <= c < 100 -> codeClass (Finite c) = Finite (100 * (c / 10)))
  /\ (0 <= c < 10 -> codeClass (Finite c) = Finite (100 * c))
  /\ (c < 0 -> codeClass (Finite c) = Finite 0)
  /\ codeClass NegInfinity = Finite 0
  /\ codeClass NaN = NaN
  /\ codeClass PosInfinity = NaN.
Proof.
  split; [|split; [|split; [|split]]].
  - apply (codeClass_range 100 900 (fun c => 100 * (c / 100))).
    by vm_compute.
  - apply (codeClass_range 10 90 (fun c => 100 * (c / 10))).
    by vm_compute.
  - apply (codeClass_range 0 10 (fun c => 100 * c)).
    by vm_compute.
  - intros Hc. destruct c as [|p|p]; [lia|lia|]. reflexivity.
  - repeat split; reflexivity.
Qed.

(** ** Loading the module *)




